(** * mcpd plugins SDK for Go: the default plugin and the [Serve] helper

    A shallow embedding of [pkg/plugins/v1/base.go] ([BasePlugin] and its
    eight methods) and of [pkg/plugins/v1/plugins/server.go] ([Serve]).

    Go values that the source handles through pointers live in a heap
    ([gmap] from addresses to objects); a pointer is an optional address,
    [None] being Go's [nil].  Every method is a state transformer over that
    heap, so that allocation ([&T{...}]), freshness of returned values and
    the absence of writes to existing objects can be stated. *)

From Stdlib Require Import ZArith.
From stdpp Require Import base option gmap sets list strings.

Local Open Scope Z_scope.

(** ** Go run-time model *)

Module Go.

(** A heap address and a pointer ([nil] is [None]). *)
Abbreviation loc := positive.
Abbreviation ptr := (option positive).

(** Go's [error] interface value: [nil], or an error carrying a message. *)
Abbreviation error := (option string).
Definition nil_error : error := None.

(** How a call ends.  [Panicked] is a Go run-time panic, [Exited] the end
    of the process ([os.Exit]), [Blocked] a call that never returns.
    [Fault] is not a Go behaviour: it marks an address that is dangling or
    holds an object of another type, which a type-checked,
    garbage-collected caller never passes. *)
Inductive outcome (A : Type) : Type :=
| Returned (a : A)
| Panicked (msg : string)
| Exited (code : Z)
| Blocked
| Fault.
Arguments Returned {A} a.
Arguments Panicked {A} msg.
Arguments Exited {A} code.
Arguments Blocked {A}.
Arguments Fault {A}.

Definition nil_dereference : string :=
  "runtime error: invalid memory address or nil pointer dereference".

(** [context.Context]: the methods below receive one and never look at it. *)
Record Context := { Cancelled : bool }.

End Go.
Export Go.

(** ** Message types *)

Module emptypb.
(** [emptypb.Empty] carries no field. *)
Record Empty := Build { }.
End emptypb.

Module Metadata.
(** Modelled from the spec: the generated [plugin.pb.go] declaring the
    message is absent; "Metadata: {name: string, version: string,
    description: string}". *)
Record t := { Name : string; Version : string; Description : string }.
(** Go's zero value, what the composite literal [Metadata{}] denotes. *)
Definition zero : t := {| Name := ""; Version := ""; Description := "" |}.
End Metadata.

(** Modelled from the spec: the generated enumeration is absent; "Flow is an
    enumeration with at least {Request, Response}". *)
Inductive Flow := FlowRequest | FlowResponse.

#[global] Instance Flow_eq_dec : EqDecision Flow.
Proof. solve_decision. Defined.

Module Capabilities.
(** Modelled from the spec: "Capabilities: {flows: set of Flow}"; the
    README builds it from a slice, [Flows: []Flow{FlowRequest}]. *)
Record t := { Flows : list Flow }.
(** [Capabilities{}]: the [Flows] slice is nil, it has no element. *)
Definition zero : t := {| Flows := [] |}.
End Capabilities.

Module PluginConfig.
(** Modelled from the spec: "PluginConfig: opaque key-value
    configuration". *)
Record t := { Entries : gmap string string }.
End PluginConfig.

Module HTTPRequest.
(** Modelled from the spec: "HTTPRequest / HTTPResponse: {headers: ordered
    multi-map of string to string, body: byte sequence, statusCode:
    integer (response only)}".  [base.go] reads the fields [Headers] and
    [Body]. *)
Record t := { Headers : list (string * string); Body : list Byte.byte }.
End HTTPRequest.

Module HTTPResponse.
(** The verdict of a mediation call; [base.go] writes the four fields
    [Continue], [StatusCode], [Headers] and [Body]. *)
Record t := {
  Continue : bool;
  StatusCode : Z;
  Headers : list (string * string);
  Body : list Byte.byte
}.
End HTTPResponse.

(** [UnimplementedPluginServer] is the generated embedding target; it has no
    field.  [BasePlugin] embeds it and declares nothing else. *)
Record UnimplementedPluginServer := Unimplemented { }.
Record BasePlugin := { Embedded : UnimplementedPluginServer }.

(** ** The heap *)

Inductive object :=
| ObjEmpty (e : emptypb.Empty)
| ObjPluginConfig (c : PluginConfig.t)
| ObjMetadata (m : Metadata.t)
| ObjCapabilities (c : Capabilities.t)
| ObjHTTPRequest (r : HTTPRequest.t)
| ObjHTTPResponse (r : HTTPResponse.t)
| ObjBasePlugin (b : BasePlugin).

Abbreviation heap := (gmap positive object).

(** A computation of the Go program over a state [S]. *)
Definition M (S A : Type) : Type := S → outcome A * S.

#[global] Instance M_ret {S} : MRet (M S) := λ A a s, (Returned a, s).

#[global] Instance M_bind {S} : MBind (M S) := λ A B k m s,
  match m s with
  | (Returned a, s') => k a s'
  | (Panicked msg, s') => (Panicked msg, s')
  | (Exited code, s') => (Exited code, s')
  | (Blocked, s') => (Blocked, s')
  | (Fault, s') => (Fault, s')
  end.

(** The plugin methods read and extend the heap. *)
Abbreviation GoM := (M heap).

(** The address [&T{...}] allocates at: the least one not in use. *)
Definition next_loc (h : heap) : loc := fresh (dom h).

(** [&T{...}]: store the object at an unused address and yield the address. *)
Definition new (o : object) : GoM loc :=
  λ h, let l := next_loc h in (Returned l, <[l:=o]> h).

(** [req.F] for [req : *HTTPRequest]: a nil pointer panics. *)
Definition load_HTTPRequest (p : ptr) : GoM HTTPRequest.t :=
  λ h, match p with
       | None => (Panicked nil_dereference, h)
       | Some l => match h !! l with
                   | Some (ObjHTTPRequest r) => (Returned r, h)
                   | _ => (Fault, h)
                   end
       end.

(** [resp.F] for [resp : *HTTPResponse]. *)
Definition load_HTTPResponse (p : ptr) : GoM HTTPResponse.t :=
  λ h, match p with
       | None => (Panicked nil_dereference, h)
       | Some l => match h !! l with
                   | Some (ObjHTTPResponse r) => (Returned r, h)
                   | _ => (Fault, h)
                   end
       end.

(** ** base.go: the methods of [*BasePlugin]

    Each method has the receiver [b], the context and the message pointer
    of the source, and returns the source's pair (message pointer, error).
    No method reads [b], so a nil receiver is accepted as in Go. *)

Module base.

(** [return &emptypb.Empty{}, nil] *)
Definition Configure (b : ptr) (ctx : Context) (cfg : ptr) : GoM (ptr * error) :=
  p ← new (ObjEmpty emptypb.Build); mret (Some p, nil_error).

Definition Stop (b : ptr) (ctx : Context) (_e : ptr) : GoM (ptr * error) :=
  p ← new (ObjEmpty emptypb.Build); mret (Some p, nil_error).

(** [return &Metadata{}, nil] *)
Definition GetMetadata (b : ptr) (ctx : Context) (_e : ptr) : GoM (ptr * error) :=
  p ← new (ObjMetadata Metadata.zero); mret (Some p, nil_error).

(** [return &Capabilities{}, nil] *)
Definition GetCapabilities (b : ptr) (ctx : Context) (_e : ptr) : GoM (ptr * error) :=
  p ← new (ObjCapabilities Capabilities.zero); mret (Some p, nil_error).

Definition CheckHealth (b : ptr) (ctx : Context) (_e : ptr) : GoM (ptr * error) :=
  p ← new (ObjEmpty emptypb.Build); mret (Some p, nil_error).

Definition CheckReady (b : ptr) (ctx : Context) (_e : ptr) : GoM (ptr * error) :=
  p ← new (ObjEmpty emptypb.Build); mret (Some p, nil_error).

(** [return &HTTPResponse{Continue: true, StatusCode: 0,
    Headers: req.Headers, Body: req.Body}, nil] *)
Definition HandleRequest (b : ptr) (ctx : Context) (req : ptr) : GoM (ptr * error) :=
  r ← load_HTTPRequest req;
  p ← new (ObjHTTPResponse
             {| HTTPResponse.Continue := true;
                HTTPResponse.StatusCode := 0;
                HTTPResponse.Headers := HTTPRequest.Headers r;
                HTTPResponse.Body := HTTPRequest.Body r |});
  mret (Some p, nil_error).

(** [return &HTTPResponse{Continue: true, StatusCode: resp.StatusCode,
    Headers: resp.Headers, Body: resp.Body}, nil] *)
Definition HandleResponse (b : ptr) (ctx : Context) (resp : ptr) : GoM (ptr * error) :=
  r ← load_HTTPResponse resp;
  p ← new (ObjHTTPResponse
             {| HTTPResponse.Continue := true;
                HTTPResponse.StatusCode := HTTPResponse.StatusCode r;
                HTTPResponse.Headers := HTTPResponse.Headers r;
                HTTPResponse.Body := HTTPResponse.Body r |});
  mret (Some p, nil_error).

End base.
Export base.

(** ** The [PluginServer] interface

    The generated interface lists the eight methods; [Serve] takes a value
    of it.  An interface value is the method table of a receiver. *)

Record PluginServer := {
  srv_Configure : Context → ptr → GoM (ptr * error);
  srv_Stop : Context → ptr → GoM (ptr * error);
  srv_GetMetadata : Context → ptr → GoM (ptr * error);
  srv_GetCapabilities : Context → ptr → GoM (ptr * error);
  srv_CheckHealth : Context → ptr → GoM (ptr * error);
  srv_CheckReady : Context → ptr → GoM (ptr * error);
  srv_HandleRequest : Context → ptr → GoM (ptr * error);
  srv_HandleResponse : Context → ptr → GoM (ptr * error)
}.

(** [*BasePlugin] as a [PluginServer]. *)
Definition BasePlugin_server (b : ptr) : PluginServer := {|
  srv_Configure := Configure b;
  srv_Stop := Stop b;
  srv_GetMetadata := GetMetadata b;
  srv_GetCapabilities := GetCapabilities b;
  srv_CheckHealth := CheckHealth b;
  srv_CheckReady := CheckReady b;
  srv_HandleRequest := HandleRequest b;
  srv_HandleResponse := HandleResponse b
|}.

Inductive method :=
| MConfigure | MStop | MGetMetadata | MGetCapabilities
| MCheckHealth | MCheckReady | MHandleRequest | MHandleResponse.

(** One call: the method, the context and the message pointer passed. *)
Record call := { call_method : method; call_ctx : Context; call_arg : ptr }.

Definition invoke (impl : PluginServer) (c : call) : GoM (ptr * error) :=
  match call_method c with
  | MConfigure => srv_Configure impl (call_ctx c) (call_arg c)
  | MStop => srv_Stop impl (call_ctx c) (call_arg c)
  | MGetMetadata => srv_GetMetadata impl (call_ctx c) (call_arg c)
  | MGetCapabilities => srv_GetCapabilities impl (call_ctx c) (call_arg c)
  | MCheckHealth => srv_CheckHealth impl (call_ctx c) (call_arg c)
  | MCheckReady => srv_CheckReady impl (call_ctx c) (call_arg c)
  | MHandleRequest => srv_HandleRequest impl (call_ctx c) (call_arg c)
  | MHandleResponse => srv_HandleResponse impl (call_ctx c) (call_arg c)
  end.

(** A sequence of calls on default plugins, each with its own receiver;
    the heap each call leaves is the one the next call starts from,
    however the call ended. *)
Fixpoint run_calls (cs : list (ptr * call)) (h : heap) : heap :=
  match cs with
  | [] => h
  | (b, c) :: cs' => run_calls cs' (snd (invoke (BasePlugin_server b) c h))
  end.

(** What a caller sees of a call: the message the returned pointer leads
    to and the error, or the panic. *)
Definition observe (res : outcome (ptr * error) * heap)
  : outcome (option object * error) :=
  match res with
  | (Returned (p, e), h) => Returned (p ≫= (h !!.), e)
  | (Panicked msg, _) => Panicked msg
  | (Exited code, _) => Exited code
  | (Blocked, _) => Blocked
  | (Fault, _) => Fault
  end.

(** What a caller observes of a call on a default plugin is a function of
    the method and of the object its argument leads to ([None] for a nil
    argument). *)
Definition observed (m : method) (arg : option object)
  : outcome (option object * error) :=
  match m with
  | MConfigure | MStop | MCheckHealth | MCheckReady =>
      Returned (Some (ObjEmpty emptypb.Build), nil_error)
  | MGetMetadata => Returned (Some (ObjMetadata Metadata.zero), nil_error)
  | MGetCapabilities =>
      Returned (Some (ObjCapabilities Capabilities.zero), nil_error)
  | MHandleRequest =>
      match arg with
      | Some (ObjHTTPRequest r) =>
          Returned (Some (ObjHTTPResponse
                            {| HTTPResponse.Continue := true;
                               HTTPResponse.StatusCode := 0;
                               HTTPResponse.Headers := HTTPRequest.Headers r;
                               HTTPResponse.Body := HTTPRequest.Body r |}),
                    nil_error)
      | Some _ => Fault
      | None => Panicked nil_dereference
      end
  | MHandleResponse =>
      match arg with
      | Some (ObjHTTPResponse r) =>
          Returned (Some (ObjHTTPResponse
                            {| HTTPResponse.Continue := true;
                               HTTPResponse.StatusCode := HTTPResponse.StatusCode r;
                               HTTPResponse.Headers := HTTPResponse.Headers r;
                               HTTPResponse.Body := HTTPResponse.Body r |}),
                    nil_error)
      | Some _ => Fault
      | None => Panicked nil_dereference
      end
  end.

(** An argument pointer is either nil or the address of a live object. *)
Definition live (h : heap) (p : ptr) : Prop :=
  ∀ l, p = Some l → is_Some (h !! l).

(** ** server.go: [Serve]

    [Serve] talks to the process's surroundings through the packages
    [flag], [net], [os], [log], [os/signal] and [grpc].  The surroundings
    are a [world] (flag set, file system paths, bound endpoints, heap) with
    a trace of what was done to it; what the outside decides (the command
    line, whether binding fails, which calls arrive, how serving ends) is
    an [env]. *)

Module server.

(** A call as it arrives on the wire, carrying its decoded message. *)
Inductive rpc :=
| RpcConfigure (cfg : PluginConfig.t)
| RpcStop
| RpcGetMetadata
| RpcGetCapabilities
| RpcCheckHealth
| RpcCheckReady
| RpcHandleRequest (r : HTTPRequest.t)
| RpcHandleResponse (r : HTTPResponse.t).

Definition rpc_method (r : rpc) : method :=
  match r with
  | RpcConfigure _ => MConfigure
  | RpcStop => MStop
  | RpcGetMetadata => MGetMetadata
  | RpcGetCapabilities => MGetCapabilities
  | RpcCheckHealth => MCheckHealth
  | RpcCheckReady => MCheckReady
  | RpcHandleRequest _ => MHandleRequest
  | RpcHandleResponse _ => MHandleResponse
  end.

Definition rpc_message (r : rpc) : object :=
  match r with
  | RpcConfigure cfg => ObjPluginConfig cfg
  | RpcHandleRequest m => ObjHTTPRequest m
  | RpcHandleResponse m => ObjHTTPResponse m
  | _ => ObjEmpty emptypb.Build
  end.

Inductive event :=
| EvListen (network address : string)
| EvRegister
| EvLog (line : string)
| EvCall (m : method) (reply : option object) (err : error)
| EvGracefulStop
| EvClose (network address : string)
| EvRemove (path : string).

Record world := {
  flagset : gmap string string;
  files : gset string;
  listeners : list (string * string);
  mem : heap;
  trace : list event
}.

(** How [grpcServer.Serve] comes to an end: an interrupt or termination
    signal reaches the process, accepting on the listener fails, or
    neither ever happens. *)
Inductive serving_end :=
| Signalled
| AcceptFailed (err : string)
| NeverEnds.

Record env := {
  cmdline : list (string * string);
  listen_failure : option string;
  incoming : list rpc;
  ending : serving_end
}.

Definition emit (ev : event) : M world () :=
  λ w, (Returned (),
        {| flagset := flagset w; files := files w; listeners := listeners w;
           mem := mem w; trace := trace w ++ [ev] |}).

Definition lift_mem {A} (m : GoM A) : M world A :=
  λ w, let '(r, h') := m (mem w) in
       (r, {| flagset := flagset w; files := files w;
              listeners := listeners w; mem := h'; trace := trace w |}).

(** [flag.StringVar(&v, name, value, usage)]: defining a name twice
    panics. *)
Definition flag_StringVar (name value : string) : M world () :=
  λ w, match flagset w !! name with
       | Some _ => (Panicked ("flag redefined: " +:+ name), w)
       | None =>
           (Returned (),
            {| flagset := <[name:=value]> (flagset w); files := files w;
               listeners := listeners w; mem := mem w; trace := trace w |})
       end.

(** [flag.Parse()] on the command line's flags, given as (name, value) in
    the order written: a defined flag is set, [-h] and [-help] end the
    process with status 0 and any other name with status 2. *)
Fixpoint flag_Parse (args : list (string * string)) : M world () :=
  match args with
  | [] => mret ()
  | (name, value) :: rest =>
      λ w, match flagset w !! name with
           | Some _ =>
               flag_Parse rest
                 {| flagset := <[name:=value]> (flagset w); files := files w;
                    listeners := listeners w; mem := mem w; trace := trace w |}
           | None =>
               if decide (name = "help" ∨ name = "h")
               then (Exited 0, w) else (Exited 2, w)
           end
  end.

(** Reading the variable a flag was bound to. *)
Definition flag_value (name : string) : M world string :=
  λ w, (Returned (default "" (flagset w !! name)), w).

Definition known_network (network : string) : bool :=
  bool_decide (network ∈ ["tcp"; "tcp4"; "tcp6"; "unix"; "unixpacket"]).

Definition path_network (network : string) : bool :=
  bool_decide (network ∈ ["unix"; "unixpacket"]).

(** [net.Listen(network, address)]: the listener, or the error.  A
    filesystem-local listener creates the socket path and fails when the
    path exists. *)
Definition net_Listen (e : env) (network address : string)
  : M world ((string * string) + string) :=
  λ w,
    if negb (known_network network)
    then (Returned (inr ("unknown network " +:+ network)), w)
    else match listen_failure e with
         | Some err => (Returned (inr err), w)
         | None =>
             if path_network network && bool_decide (address ∈ files w)
             then (Returned (inr "bind: address already in use"), w)
             else
               (Returned (inl (network, address)),
                {| flagset := flagset w;
                   files := if path_network network
                            then files w ∪ {[address]} else files w;
                   listeners := (network, address) :: listeners w;
                   mem := mem w;
                   trace := trace w ++ [EvListen network address] |})
         end.

(** [os.Remove(name)] *)
Definition os_Remove (name : string) : M world error :=
  λ w, (Returned (if bool_decide (name ∈ files w) then None
                  else Some "no such file or directory"),
        {| flagset := flagset w; files := files w ∖ {[name]};
           listeners := listeners w; mem := mem w;
           trace := trace w ++ [EvRemove name] |}).

(** Closing a listener releases the endpoint; a filesystem-local
    listener made by [net.Listen] unlinks its path. *)
Definition close_listener (lis : string * string) : M world () :=
  λ w, (Returned (),
        {| flagset := flagset w;
           files := if path_network lis.1
                    then files w ∖ {[lis.2]} else files w;
           listeners := filter (λ x, x ≠ lis) (listeners w);
           mem := mem w;
           trace := trace w ++ [EvClose lis.1 lis.2] |}).

(** [defer d] around the rest of the function: [d] runs when the rest
    returns or panics, not when the process ends or never leaves it. *)
Definition defer {A} (d : M world ()) (body : M world A) : M world A :=
  λ w, match body w with
       | (Returned a, w') => (Returned a, (d w').2)
       | (Panicked msg, w') => (Panicked msg, (d w').2)
       | other => other
       end.

(** The implementation's method runs on the decoded message at [p]; its
    reply is sent. *)
Definition run_handler (impl : PluginServer) (r : rpc) (p : loc)
  : M world () :=
  λ w, match invoke impl {| call_method := rpc_method r;
                             call_ctx := {| Cancelled := false |};
                             call_arg := Some p |} (mem w) with
       | (Returned (reply, err), h') =>
           (Returned (),
            {| flagset := flagset w; files := files w;
               listeners := listeners w; mem := h';
               trace := trace w ++ [EvCall (rpc_method r) (reply ≫= (h' !!.)) err] |})
       | (Panicked _, h') =>
           (* an unrecovered panic in a handler goroutine ends the process *)
           (Exited 2, {| flagset := flagset w; files := files w;
                         listeners := listeners w; mem := h';
                         trace := trace w |})
       | (Exited code, h') =>
           (Exited code, {| flagset := flagset w; files := files w;
                            listeners := listeners w; mem := h';
                            trace := trace w |})
       | (Blocked, h') =>
           (Blocked, {| flagset := flagset w; files := files w;
                        listeners := listeners w; mem := h';
                        trace := trace w |})
       | (Fault, h') =>
           (Fault, {| flagset := flagset w; files := files w;
                      listeners := listeners w; mem := h';
                      trace := trace w |})
       end.

(** One call served: the message is decoded into a new object and
    handed to the implementation. *)
Definition serve_call (impl : PluginServer) (r : rpc) : M world () :=
  p ← lift_mem (new (rpc_message r));
  run_handler impl r p.

Fixpoint serve_calls (impl : PluginServer) (rs : list rpc) : M world () :=
  match rs with
  | [] => mret ()
  | r :: rs' => _ ← serve_call impl r; serve_calls impl rs'
  end.

(** [grpcServer.Serve(lis)] together with the goroutine [Serve] starts:
    the arriving calls are served; on a signal the goroutine logs and
    calls [GracefulStop], after which serving returns nil; a failing
    accept makes it return the error.  The listener is closed when
    serving returns. *)
Definition grpc_Serve (impl : PluginServer) (e : env) (lis : string * string)
  : M world error :=
  _ ← serve_calls impl (incoming e);
  match ending e with
  | Signalled =>
      _ ← emit (EvLog "Shutting down gracefully...");
      _ ← emit EvGracefulStop;
      _ ← close_listener lis;
      mret nil_error
  | AcceptFailed err =>
      _ ← close_listener lis;
      mret (Some err)
  | NeverEnds => λ w, (Blocked, w)
  end.

(** The head of [Serve]: both flags are defined with their defaults, the
    command line is parsed, and the two variables are read. *)
Definition parsed_flags (e : env) : M world (string * string) :=
  _ ← flag_StringVar "address" "";
  _ ← flag_StringVar "network" "unix";
  _ ← flag_Parse (cmdline e);
  address ← flag_value "address";
  network ← flag_value "network";
  mret (address, network).

(** What [Serve] does once the listener exists, up to its [return]. *)
Definition serve_on (impl : PluginServer) (e : env)
    (network address : string) (lis : string * string) : M world error :=
  _ ← emit EvRegister;
  _ ← emit (EvLog ("Plugin server listening on " +:+ network
                   +:+ " " +:+ address));
  err ← grpc_Serve impl e lis;
  match err with
  | Some msg => mret (Some ("failed to serve: " +:+ msg))
  | None => mret nil_error
  end.

Definition Serve (impl : PluginServer) (e : env) : M world error :=
  '(address, network) ← parsed_flags e;
  if decide (address = "")
  then mret (Some "--address flag is required")
  else
    r ← net_Listen e network address;
    match r with
    | inr err =>
        mret (Some ("failed to listen on " +:+ network +:+ " " +:+ address
                    +:+ ": " +:+ err))
    | inl lis =>
        defer (if decide (network = "unix")
               then _ ← os_Remove address; mret ()
               else mret ())
          (serve_on impl e network address lis)
    end.

(** A process that has just started: no flag defined, nothing bound,
    nothing done yet. *)
Definition fresh_process (fs : gset string) (h : heap) : world :=
  {| flagset := ∅; files := fs; listeners := []; mem := h; trace := [] |}.

End server.


(** ** The host's mediation pipeline *)

Module pipeline.

(** The response a transaction ends with. *)
Record response := {
  status : Z;
  headers : list (string * string);
  body : list Byte.byte
}.

(** A plugin as the host sees it: the flows it declared and its two
    mediation calls, each giving a verdict or failing. *)
Record plugin := {
  flows : list Flow;
  handle_request : HTTPRequest.t → option HTTPResponse.t;
  handle_response : HTTPResponse.t → option HTTPResponse.t
}.

Inductive event :=
| RequestVerdict (v : HTTPResponse.t)
| UpstreamCall (r : HTTPRequest.t)
| ResponseVerdict (v : HTTPResponse.t).

(** How a phase ends: every stage continued, a stage short-circuited
    with its verdict, or a mediation call failed. *)
Inductive phase_end (A : Type) :=
| Proceed (payload : A)
| ShortCircuit (v : HTTPResponse.t)
| Aborted.
Arguments Proceed {A} payload.
Arguments ShortCircuit {A} v.
Arguments Aborted {A}.

Inductive result :=
| Final (r : response)
| ServerError.

Definition response_of (v : HTTPResponse.t) : response :=
  {| status := HTTPResponse.StatusCode v;
     headers := HTTPResponse.Headers v;
     body := HTTPResponse.Body v |}.

(** Modelled from the spec: the host that sequences the plugins is not
    among the sources; section 4.3, "the host sequences zero or more
    request-flow plugins", each stage "receives the current working
    payload", "returns a Verdict", "if continue = false: pipeline halts;
    the Verdict's statusCode/headers/body becomes the final response
    immediately", "if continue = true: the returned headers/body replace
    the working payload for the next stage"; a failing mediation call
    aborts the transaction (fail-closed). *)
Fixpoint request_phase (ps : list plugin) (w : HTTPRequest.t)
  : phase_end HTTPRequest.t * list event :=
  match ps with
  | [] => (Proceed w, [])
  | p :: ps' =>
      match handle_request p w with
      | None => (Aborted, [])
      | Some v =>
          if HTTPResponse.Continue v
          then
            let '(r, t) :=
              request_phase ps'
                {| HTTPRequest.Headers := HTTPResponse.Headers v;
                   HTTPRequest.Body := HTTPResponse.Body v |} in
            (r, RequestVerdict v :: t)
          else (ShortCircuit v, [RequestVerdict v])
      end
  end.

(** Modelled from the spec: the response-flow stages of section 4.3,
    sequenced like the request-flow ones on the upstream response. *)
Fixpoint response_phase (ps : list plugin) (w : HTTPResponse.t)
  : phase_end HTTPResponse.t * list event :=
  match ps with
  | [] => (Proceed w, [])
  | p :: ps' =>
      match handle_response p w with
      | None => (Aborted, [])
      | Some v =>
          if HTTPResponse.Continue v
          then
            let '(r, t) := response_phase ps' v in
            (r, ResponseVerdict v :: t)
          else (ShortCircuit v, [ResponseVerdict v])
      end
  end.

Definition declares (f : Flow) (p : plugin) : bool :=
  bool_decide (f ∈ flows p).

(** Modelled from the spec: one transaction of the host, absent from the
    sources; section 4.3, "the host sequences zero or more request-flow
    plugins, then (absent short-circuit) performs the upstream call, then
    zero or more response-flow plugins".  The result comes with the
    events of the transaction in the order they happened. *)
Definition transaction (ps : list plugin)
    (upstream : HTTPRequest.t → response) (r : HTTPRequest.t)
  : result * list event :=
  match request_phase (filter (λ p, declares FlowRequest p = true) ps) r with
  | (ShortCircuit v, t) => (Final (response_of v), t)
  | (Aborted, t) => (ServerError, t)
  | (Proceed w, t) =>
      let u := upstream w in
      match response_phase (filter (λ p, declares FlowResponse p = true) ps)
              {| HTTPResponse.Continue := true;
                 HTTPResponse.StatusCode := status u;
                 HTTPResponse.Headers := headers u;
                 HTTPResponse.Body := body u |} with
      | (ShortCircuit v, t') =>
          (Final (response_of v), t ++ UpstreamCall w :: t')
      | (Aborted, t') => (ServerError, t ++ UpstreamCall w :: t')
      | (Proceed w', t') =>
          (Final (response_of w'), t ++ UpstreamCall w :: t')
      end
  end.

(** A plugin served over the wire, as the host sees it: each call sends a
    message and receives the message behind the returned pointer; a call
    that fails or does not return a message of the expected type is a
    failed mediation call. *)
Definition call_on (impl : PluginServer) (m : method) (msg : object)
  : option object :=
  match (p ← new msg;
         invoke impl {| call_method := m;
                        call_ctx := {| Cancelled := false |};
                        call_arg := Some p |}) ∅ with
  | (Returned (Some p, None), h) => h !! p
  | _ => None
  end.

Definition plugin_of (impl : PluginServer) : plugin :=
  {| flows :=
       match call_on impl MGetCapabilities (ObjEmpty emptypb.Build) with
       | Some (ObjCapabilities c) => Capabilities.Flows c
       | _ => []
       end;
     handle_request := λ r,
       match call_on impl MHandleRequest (ObjHTTPRequest r) with
       | Some (ObjHTTPResponse v) => Some v
       | _ => None
       end;
     handle_response := λ r,
       match call_on impl MHandleResponse (ObjHTTPResponse r) with
       | Some (ObjHTTPResponse v) => Some v
       | _ => None
       end |}.

End pipeline.

(** ** The caller of [Serve] *)

Module cmd.

(** [log.Fatal(v)]: the message is logged and the process exits with
    status 1; no deferred call runs. *)
Definition log_Fatal (msg : string) : M server.world () :=
  λ w, (Exited 1, (server.emit (server.EvLog msg) w).2).

(** The [main] of the usage shown with [Serve]:
    [if err := pluginv1.Serve(&MyPlugin{}); err != nil { log.Fatal(err) }] *)
Definition main (impl : PluginServer) (e : server.env) : M server.world () :=
  err ← server.Serve impl e;
  match err with
  | Some msg => log_Fatal msg
  | None => mret ()
  end.

End cmd.

(** ** What the command line sets a flag to *)

(** The value of the flag [name] after the flags [args] were read in
    order, starting from [current]: each occurrence overwrites. *)
Fixpoint flag_setting (name current : string) (args : list (string * string))
  : string :=
  match args with
  | [] => current
  | (n, v) :: rest =>
      flag_setting name (if decide (n = name) then v else current) rest
  end.

(** ** What a default plugin replies to a call *)

Definition default_reply (r : server.rpc) : object :=
  match r with
  | server.RpcConfigure _ | server.RpcStop
  | server.RpcCheckHealth | server.RpcCheckReady => ObjEmpty emptypb.Build
  | server.RpcGetMetadata => ObjMetadata Metadata.zero
  | server.RpcGetCapabilities => ObjCapabilities Capabilities.zero
  | server.RpcHandleRequest m =>
      ObjHTTPResponse {| HTTPResponse.Continue := true;
                         HTTPResponse.StatusCode := 0;
                         HTTPResponse.Headers := HTTPRequest.Headers m;
                         HTTPResponse.Body := HTTPRequest.Body m |}
  | server.RpcHandleResponse m =>
      ObjHTTPResponse {| HTTPResponse.Continue := true;
                         HTTPResponse.StatusCode := HTTPResponse.StatusCode m;
                         HTTPResponse.Headers := HTTPResponse.Headers m;
                         HTTPResponse.Body := HTTPResponse.Body m |}
  end.

Definition reply_event (r : server.rpc) : server.event :=
  server.EvCall (server.rpc_method r) (Some (default_reply r)) nil_error.

(** ** Relations between the world before and after a computation *)

(** [m] relates every world to the one it leaves, however it ends. *)
Definition post {A} (m : M server.world A)
    (R : server.world → server.world → Prop) : Prop :=
  ∀ w, R w (m w).2.

(** Only the flag set may differ. *)
Definition only_flags (w w' : server.world) : Prop :=
  server.files w' = server.files w
  ∧ server.listeners w' = server.listeners w
  ∧ server.mem w' = server.mem w
  ∧ server.trace w' = server.trace w.

(** Every flag defined before is still defined. *)
Definition flags_kept (w w' : server.world) : Prop :=
  ∀ name, is_Some (server.flagset w !! name) →
          is_Some (server.flagset w' !! name).


(** The file system is as it was and the trace grew by events none of
    which is a removal. *)
Definition no_removal (w w' : server.world) : Prop :=
  server.files w' = server.files w
  ∧ (∃ t, server.trace w' = server.trace w ++ t
          ∧ (∀ path, server.EvRemove path ∉ t)).

(** ** Sample inputs

    The spec's scenario: a request with the header a: 1 and the body "hi",
    stored at address 1; a response stored at address 2. *)

Module sample.

Definition ctx : Context := {| Cancelled := false |}.

Definition request : HTTPRequest.t :=
  {| HTTPRequest.Headers := [("a", "1")];
     HTTPRequest.Body := [Byte.x68; Byte.x69] |}.

Definition reply : HTTPResponse.t :=
  {| HTTPResponse.Continue := false;
     HTTPResponse.StatusCode := 403;
     HTTPResponse.Headers := [("x", "1")];
     HTTPResponse.Body := [Byte.x6e; Byte.x6f] |}.

Definition memory : heap :=
  {[ 1%positive := ObjHTTPRequest request; 2%positive := ObjHTTPResponse reply ]}.

(** A command line without [--address]; one naming a socket path and one
    naming a TCP endpoint; two calls arrive and then a signal. *)
Definition no_address : server.env :=
  {| server.cmdline := [("network", "tcp")];
     server.listen_failure := None;
     server.incoming := [];
     server.ending := server.Signalled |}.

Definition unix_socket : server.env :=
  {| server.cmdline := [("address", "/tmp/plugin.sock")];
     server.listen_failure := None;
     server.incoming := [server.RpcGetMetadata; server.RpcHandleRequest request];
     server.ending := server.Signalled |}.

Definition tcp_endpoint : server.env :=
  {| server.cmdline := [("network", "tcp"); ("address", "127.0.0.1:9000")];
     server.listen_failure := None;
     server.incoming := [server.RpcGetMetadata; server.RpcHandleRequest request];
     server.ending := server.Signalled |}.

Definition start : server.world := server.fresh_process ∅ ∅.


(** Binding fails for a reason of the system's. *)
Definition refused : server.env :=
  {| server.cmdline := [("network", "tcp"); ("address", "127.0.0.1:80")];
     server.listen_failure := Some "bind: permission denied";
     server.incoming := [];
     server.ending := server.Signalled |}.

(** Accepting fails after one call was served. *)
Definition broken : server.env :=
  {| server.cmdline := [("address", "/tmp/plugin.sock")];
     server.listen_failure := None;
     server.incoming := [server.RpcCheckHealth];
     server.ending := server.AcceptFailed "accept: too many open files" |}.

(** A command line that repeats a flag, and one with a flag [Serve] does
    not define. *)
Definition repeated : server.env :=
  {| server.cmdline := [("address", "/tmp/a.sock"); ("network", "tcp");
                        ("address", "127.0.0.1:9000")];
     server.listen_failure := None;
     server.incoming := [];
     server.ending := server.NeverEnds |}.


(** Three plugins in registration order: an unoverridden default plugin,
    a request plugin that adds the header x: 1 and continues, and a
    request plugin that refuses every request with [reply]. *)
Definition tagger : pipeline.plugin :=
  {| pipeline.flows := [FlowRequest];
     pipeline.handle_request := λ r,
       Some {| HTTPResponse.Continue := true;
               HTTPResponse.StatusCode := 0;
               HTTPResponse.Headers := HTTPRequest.Headers r ++ [("x", "1")];
               HTTPResponse.Body := HTTPRequest.Body r |};
     pipeline.handle_response := λ s, Some s |}.

Definition refuser : pipeline.plugin :=
  {| pipeline.flows := [FlowRequest];
     pipeline.handle_request := λ _, Some reply;
     pipeline.handle_response := λ s, Some s |}.

Definition plugins : list pipeline.plugin :=
  [pipeline.plugin_of (BasePlugin_server None); tagger; refuser].

Definition upstream (r : HTTPRequest.t) : pipeline.response :=
  {| pipeline.status := 200;
     pipeline.headers := HTTPRequest.Headers r;
     pipeline.body := HTTPRequest.Body r |}.

End sample.

(** * Properties of the default plugin *)

Section heap_facts.

Implicit Types (h : heap) (o : object) (l : loc).

Lemma next_loc_fresh h : h !! next_loc h = None.
Proof. unfold next_loc. apply not_elem_of_dom. apply is_fresh. Qed.

Lemma new_extends o h : h ⊆ <[next_loc h := o]> h.
Proof. apply insert_subseteq, next_loc_fresh. Qed.

Lemma extends_lookup h h' l : h ⊆ h' → is_Some (h !! l) → h' !! l = h !! l.
Proof.
  intros Hsub [o Ho]. rewrite Ho.
  by apply (lookup_weaken h h' l o).
Qed.

End heap_facts.

(** Unfolds a method down to the heap operations it performs. *)
Ltac unfold_method :=
  unfold Configure, Stop, GetMetadata, GetCapabilities, CheckHealth,
    CheckReady, HandleRequest, HandleResponse,
    load_HTTPRequest, load_HTTPResponse, new,
    mbind, M_bind, mret, M_ret; simpl.

(** Every call on a default plugin leaves the objects of the heap as they
    were: it can only add one. *)
Lemma invoke_BasePlugin_extends (b : ptr) (c : call) (h : heap) :
  h ⊆ (invoke (BasePlugin_server b) c h).2.
Proof.
  destruct c as [m ctx arg]; destruct m; unfold invoke; simpl;
    unfold_method; try apply new_extends.
  - destruct arg as [l|]; simpl; [|done].
    destruct (h !! l) as [[]|]; simpl; try done; apply new_extends.
  - destruct arg as [l|]; simpl; [|done].
    destruct (h !! l) as [[]|]; simpl; try done; apply new_extends.
Qed.

Lemma run_calls_extends (cs : list (ptr * call)) (h : heap) :
  h ⊆ run_calls cs h.
Proof.
  revert h; induction cs as [|[b c] cs IH]; intros h; simpl; [done|].
  etrans; [apply invoke_BasePlugin_extends | apply IH].
Qed.

Lemma observe_invoke_BasePlugin (b : ptr) (c : call) (h : heap) :
  live h (call_arg c) →
  observe (invoke (BasePlugin_server b) c h)
  = observed (call_method c) (call_arg c ≫= (h !!.)).
Proof.
  intros Hlive.
  destruct c as [m ctx arg]; destruct m; unfold invoke; simpl in *;
    unfold_method; rewrite ?lookup_insert_eq; try done.
  - destruct arg as [l|]; simpl; [|done].
    destruct (Hlive l eq_refl) as [o Ho]. rewrite Ho.
    destruct o; simpl; try done. by rewrite lookup_insert_eq.
  - destruct arg as [l|]; simpl; [|done].
    destruct (Hlive l eq_refl) as [o Ho]. rewrite Ho.
    destruct o; simpl; try done. by rewrite lookup_insert_eq.
Qed.

(** ** Pass-through *)

(** C1. Default-plugin pass-through is identity-preserving.  For every
    request [r] (held at an address [l]), [HandleRequest] returns a nil
    error and a pointer to a new verdict with continue = true, headers and
    body those of [r] and the status code 0; for every response [s],
    [HandleResponse] returns a nil error and a pointer to a new verdict
    with continue = true and the status code, headers and body of [s].
    Nothing else in the heap changes. *)
Theorem BasePlugin_passthrough (b : ptr) (ctx : Context) (h : heap) :
  (∀ l r, h !! l = Some (ObjHTTPRequest r) →
     ∃ p, h !! p = None ∧
       HandleRequest b ctx (Some l) h
       = (Returned (Some p, nil_error),
          <[p := ObjHTTPResponse
                   {| HTTPResponse.Continue := true;
                      HTTPResponse.StatusCode := 0;
                      HTTPResponse.Headers := HTTPRequest.Headers r;
                      HTTPResponse.Body := HTTPRequest.Body r |}]> h))
  ∧ (∀ l s, h !! l = Some (ObjHTTPResponse s) →
     ∃ p, h !! p = None ∧
       HandleResponse b ctx (Some l) h
       = (Returned (Some p, nil_error),
          <[p := ObjHTTPResponse
                   {| HTTPResponse.Continue := true;
                      HTTPResponse.StatusCode := HTTPResponse.StatusCode s;
                      HTTPResponse.Headers := HTTPResponse.Headers s;
                      HTTPResponse.Body := HTTPResponse.Body s |}]> h)).
Proof.
  split; intros l x Hl; exists (next_loc h);
    (split; [apply next_loc_fresh|]); unfold_method; by rewrite Hl.
Qed.

(** The spec's scenario, run: the verdict for the request with header
    a: 1 and body "hi" is allocated at address 3. *)
Lemma BasePlugin_passthrough_witness :
  ∃ p, sample.memory !! p = None ∧
    HandleRequest None sample.ctx (Some 1%positive) sample.memory
    = (Returned (Some p, nil_error),
       <[p := ObjHTTPResponse
                {| HTTPResponse.Continue := true;
                   HTTPResponse.StatusCode := 0;
                   HTTPResponse.Headers := [("a", "1")];
                   HTTPResponse.Body := [Byte.x68; Byte.x69] |}]> sample.memory).
Proof.
  apply (proj1 (BasePlugin_passthrough None sample.ctx sample.memory)
           1%positive sample.request).
  reflexivity.
Defined.

(** ** Lifecycle and probes *)

(** C3. For every receiver, context, argument pointer (nil included) and
    heap, [Configure], [Stop], [CheckHealth] and [CheckReady] return a nil
    error and a pointer to a new, empty message; every object that was in
    the heap is still there unchanged, and the empty message is the only
    addition. *)
Theorem BasePlugin_lifecycle_succeeds (b : ptr) (ctx : Context) (arg : ptr)
    (h : heap) :
  let p := next_loc h in
  let after := (Returned (Some p, nil_error), <[p := ObjEmpty emptypb.Build]> h) in
  h !! p = None
  ∧ Configure b ctx arg h = after
  ∧ Stop b ctx arg h = after
  ∧ CheckHealth b ctx arg h = after
  ∧ CheckReady b ctx arg h = after
  ∧ (∀ l o, h !! l = Some o → after.2 !! l = Some o)
  ∧ dom after.2 = dom h ∪ {[p]}.
Proof.
  simpl. split; [apply next_loc_fresh|].
  repeat (split; [reflexivity|]). split.
  - intros l o Hl. apply (lookup_weaken h); [done | apply new_extends].
  - rewrite dom_insert_L. apply (comm_L (∪)).
Qed.

(** ** Metadata and capabilities *)

(** C4. On every call [GetMetadata] returns a pointer to a new [Metadata]
    whose name, version and description are empty, and [GetCapabilities] a
    pointer to a new [Capabilities] with no flow; the address returned was
    not in use before the call, and every object that was in the heap
    (values returned earlier among them) is unchanged. *)
Theorem BasePlugin_metadata_capabilities_empty (b : ptr) (ctx : Context)
    (arg : ptr) (h : heap) :
  let p := next_loc h in
  h !! p = None
  ∧ GetMetadata b ctx arg h
    = (Returned (Some p, nil_error),
       <[p := ObjMetadata {| Metadata.Name := ""; Metadata.Version := "";
                             Metadata.Description := "" |}]> h)
  ∧ GetCapabilities b ctx arg h
    = (Returned (Some p, nil_error),
       <[p := ObjCapabilities {| Capabilities.Flows := [] |}]> h)
  ∧ (∀ l o, h !! l = Some o →
       (GetMetadata b ctx arg h).2 !! l = Some o
       ∧ (GetCapabilities b ctx arg h).2 !! l = Some o).
Proof.
  simpl. split; [apply next_loc_fresh|].
  repeat (split; [reflexivity|]).
  intros l o Hl. unfold_method.
  split; (apply (lookup_weaken h); [done | apply new_extends]).
Qed.

(** C5. Two calls of [GetMetadata] in a row (no [Configure] in between)
    return pointers to equal values, and so do two calls of
    [GetCapabilities]; the calls have no side effect: every object in the
    heap before them is unchanged after them. *)
Theorem BasePlugin_getters_idempotent (b : ptr) (ctx : Context)
    (arg1 arg2 : ptr) (h : heap) :
  (∃ p1 h1 p2 h2,
      GetMetadata b ctx arg1 h = (Returned (Some p1, nil_error), h1)
      ∧ GetMetadata b ctx arg2 h1 = (Returned (Some p2, nil_error), h2)
      ∧ h2 !! p1 = Some (ObjMetadata Metadata.zero)
      ∧ h2 !! p2 = h2 !! p1
      ∧ h ⊆ h2)
  ∧ (∃ p1 h1 p2 h2,
      GetCapabilities b ctx arg1 h = (Returned (Some p1, nil_error), h1)
      ∧ GetCapabilities b ctx arg2 h1 = (Returned (Some p2, nil_error), h2)
      ∧ h2 !! p1 = Some (ObjCapabilities Capabilities.zero)
      ∧ h2 !! p2 = h2 !! p1
      ∧ h ⊆ h2).
Proof.
  split.
  - set (o := ObjMetadata Metadata.zero).
    exists (next_loc h), (<[next_loc h := o]> h).
    exists (next_loc (<[next_loc h := o]> h)),
      (<[next_loc (<[next_loc h := o]> h) := o]> (<[next_loc h := o]> h)).
    repeat (split; [reflexivity|]).
    assert (Hp1 : (<[next_loc (<[next_loc h := o]> h) := o]>
                     (<[next_loc h := o]> h)) !! next_loc h = Some o).
    { apply (lookup_weaken (<[next_loc h := o]> h));
        [apply lookup_insert_eq | apply new_extends]. }
    split; [exact Hp1|]. split.
    + rewrite Hp1. apply lookup_insert_eq.
    + etrans; apply new_extends.
  - set (o := ObjCapabilities Capabilities.zero).
    exists (next_loc h), (<[next_loc h := o]> h).
    exists (next_loc (<[next_loc h := o]> h)),
      (<[next_loc (<[next_loc h := o]> h) := o]> (<[next_loc h := o]> h)).
    repeat (split; [reflexivity|]).
    assert (Hp1 : (<[next_loc (<[next_loc h := o]> h) := o]>
                     (<[next_loc h := o]> h)) !! next_loc h = Some o).
    { apply (lookup_weaken (<[next_loc h := o]> h));
        [apply lookup_insert_eq | apply new_extends]. }
    split; [exact Hp1|]. split.
    + rewrite Hp1. apply lookup_insert_eq.
    + etrans; apply new_extends.
Qed.

(** ** Totality *)

(** C9, as stated, fails on a nil message: [HandleRequest] reads
    [req.Headers] through the pointer it is given, and with [req] nil the
    call panics instead of returning a result and a nil error. *)
Lemma HandleRequest_nil_panics :
  HandleRequest None sample.ctx None sample.memory
  = (Panicked nil_dereference, sample.memory)
  ∧ ¬ ∃ p h', HandleRequest None sample.ctx None sample.memory
              = (Returned (Some p, nil_error), h').
Proof.
  split; [reflexivity|].
  intros (p & h' & H). discriminate H.
Qed.

(** C9, amended.  [GetMetadata] and [GetCapabilities] return a non-nil
    result and a nil error on every input; [HandleRequest] and
    [HandleResponse] do so on every non-nil message pointer, and panic
    with a nil pointer dereference, leaving the heap as it was, when the
    message pointer is nil. *)
Theorem BasePlugin_total_on_messages (b : ptr) (ctx : Context) (h : heap) :
  (∀ arg, ∃ p h', GetMetadata b ctx arg h = (Returned (Some p, nil_error), h')
                  ∧ is_Some (h' !! p))
  ∧ (∀ arg, ∃ p h', GetCapabilities b ctx arg h = (Returned (Some p, nil_error), h')
                    ∧ is_Some (h' !! p))
  ∧ (∀ l r, h !! l = Some (ObjHTTPRequest r) →
       ∃ p h', HandleRequest b ctx (Some l) h = (Returned (Some p, nil_error), h')
               ∧ is_Some (h' !! p))
  ∧ (∀ l s, h !! l = Some (ObjHTTPResponse s) →
       ∃ p h', HandleResponse b ctx (Some l) h = (Returned (Some p, nil_error), h')
               ∧ is_Some (h' !! p))
  ∧ HandleRequest b ctx None h = (Panicked nil_dereference, h)
  ∧ HandleResponse b ctx None h = (Panicked nil_dereference, h).
Proof.
  repeat split.
  - intros arg. eexists _, _. split; [reflexivity|].
    rewrite lookup_insert_eq. by eexists.
  - intros arg. eexists _, _. split; [reflexivity|].
    rewrite lookup_insert_eq. by eexists.
  - intros l r Hl. eexists _, _. unfold_method. rewrite Hl.
    split; [reflexivity|]. rewrite lookup_insert_eq. by eexists.
  - intros l r Hl. eexists _, _. unfold_method. rewrite Hl.
    split; [reflexivity|]. rewrite lookup_insert_eq. by eexists.
Qed.

Lemma BasePlugin_total_on_messages_witness :
  ∃ p h', HandleResponse None sample.ctx (Some 2%positive) sample.memory
          = (Returned (Some p, nil_error), h')
          ∧ is_Some (h' !! p).
Proof.
  apply (proj1 (proj2 (proj2 (proj2
           (BasePlugin_total_on_messages None sample.ctx sample.memory))))
           2%positive sample.reply).
  reflexivity.
Defined.

(** ** Statelessness *)

Lemma BasePlugin_single_value (x y : BasePlugin) : x = y.
Proof. by destruct x as [[]], y as [[]]. Qed.

(** C10. [BasePlugin] has no field to mutate (the type has one value),
    and its methods are deterministic and keep nothing between calls: a
    call made again with the same method, context and argument, on any
    receiver and after any sequence of other calls on default plugins,
    is observed to give the same result (the same message behind the
    returned pointer and the same error, or the same panic).  The argument
    pointer is nil or the address of a live object. *)
Theorem BasePlugin_stateless (b1 b2 : ptr) (c : call)
    (between : list (ptr * call)) (h : heap) :
  live h (call_arg c) →
  let first := invoke (BasePlugin_server b1) c h in
  let second := invoke (BasePlugin_server b2) c (run_calls between first.2) in
  (∀ x y : BasePlugin, x = y)
  ∧ observe first = observe second.
Proof.
  intros Hlive first second.
  split; [apply BasePlugin_single_value|].
  assert (Hsub : h ⊆ run_calls between first.2).
  { etrans; [apply (invoke_BasePlugin_extends b1 c) | apply run_calls_extends]. }
  assert (Hlive' : live (run_calls between first.2) (call_arg c)).
  { intros l Hl. rewrite (extends_lookup h); auto. }
  unfold first, second.
  rewrite !observe_invoke_BasePlugin by done.
  f_equal. destruct (call_arg c) as [l|]; simpl; [|done].
  symmetry. apply extends_lookup; auto.
Qed.

(** The pass-through of the sample request, repeated after a
    [Configure] on a nil receiver and a [GetMetadata]. *)
Lemma BasePlugin_stateless_witness :
  let c := {| call_method := MHandleRequest; call_ctx := sample.ctx;
              call_arg := Some 1%positive |} in
  let between :=
    [ (None, {| call_method := MConfigure; call_ctx := sample.ctx;
                call_arg := None |});
      (Some 2%positive, {| call_method := MGetMetadata; call_ctx := sample.ctx;
                           call_arg := None |}) ] in
  let first := invoke (BasePlugin_server None) c sample.memory in
  let second :=
    invoke (BasePlugin_server (Some 2%positive)) c (run_calls between first.2) in
  (∀ x y : BasePlugin, x = y) ∧ observe first = observe second.
Proof.
  intros c between.
  apply (BasePlugin_stateless None (Some 2%positive) c between sample.memory).
  intros l Hl. injection Hl as <-. by eexists.
Defined.

(** * Properties of [Serve] *)

Section effects.

Import server.

Lemma post_bind {A B} (R : world → world → Prop) `{!Transitive R}
    (m : M world A) (k : A → M world B) :
  post m R → (∀ a, post (k a) R) → post (m ≫= k) R.
Proof.
  intros Hm Hk w. unfold mbind, M_bind.
  specialize (Hm w). destruct (m w) as [[a| | | |] w1]; simpl in *; try done.
  etrans; [exact Hm | apply Hk].
Qed.

Lemma post_ret {A} (R : world → world → Prop) `{!Reflexive R} (a : A) :
  post (mret a) R.
Proof. intros w. simpl. reflexivity. Qed.

#[local] Instance only_flags_refl : Reflexive only_flags.
Proof. by intros w. Qed.

#[local] Instance only_flags_trans : Transitive only_flags.
Proof.
  intros w1 w2 w3 (?&?&?&?) (?&?&?&?). repeat split; congruence.
Qed.

#[local] Instance no_removal_refl : Reflexive no_removal.
Proof.
  intros w. split; [done|]. exists []. rewrite app_nil_r.
  split; [done|]. intros path H. inversion H.
Qed.

#[local] Instance no_removal_trans : Transitive no_removal.
Proof.
  intros w1 w2 w3 [Hf1 (t1 & Ht1 & Hn1)] [Hf2 (t2 & Ht2 & Hn2)].
  split; [congruence|]. exists (t1 ++ t2).
  split; [by rewrite Ht2, Ht1, app_assoc|].
  intros path [H|H]%elem_of_app; [by eapply Hn1 | by eapply Hn2].
Qed.

Lemma no_removal_same w w' :
  files w' = files w → trace w' = trace w → no_removal w w'.
Proof.
  intros Hf Ht. split; [done|]. exists []. rewrite app_nil_r.
  split; [done|]. intros path H. inversion H.
Qed.

Lemma flag_StringVar_only_flags name value :
  post (flag_StringVar name value) only_flags.
Proof. intros w. unfold flag_StringVar. by destruct (flagset w !! name). Qed.

Lemma flag_Parse_only_flags args : post (flag_Parse args) only_flags.
Proof.
  induction args as [|[name value] rest IH]; intros w; simpl; [done|].
  destruct (flagset w !! name).
  - etrans; [|apply IH]. done.
  - by destruct (decide _).
Qed.

Lemma parsed_flags_only_flags e : post (parsed_flags e) only_flags.
Proof.
  unfold parsed_flags.
  repeat (apply post_bind; [apply _ | | intros ?]);
    auto using flag_StringVar_only_flags, flag_Parse_only_flags.
  - by intros w.
  - by intros w.
  - by intros w.
Qed.

Lemma emit_no_removal ev :
  (∀ path, ev ≠ EvRemove path) → post (emit ev) no_removal.
Proof.
  intros Hev w. split; [done|]. exists [ev]. split; [done|].
  intros path H%list_elem_of_singleton. by eapply Hev.
Qed.

Lemma run_handler_no_removal impl r p : post (run_handler impl r p) no_removal.
Proof.
  intros w. unfold run_handler.
  destruct (invoke impl _ (mem w)) as [[[reply err]| | | |] h']; simpl;
    try by apply no_removal_same.
  split; [done|]. eexists [_]. split; [done|].
  intros path H%list_elem_of_singleton. discriminate H.
Qed.

Lemma serve_call_no_removal impl r : post (serve_call impl r) no_removal.
Proof.
  unfold serve_call. apply post_bind; [apply _ | |].
  - intros w. by apply no_removal_same.
  - intros p. apply run_handler_no_removal.
Qed.

Lemma serve_calls_no_removal impl rs : post (serve_calls impl rs) no_removal.
Proof.
  induction rs as [|r rs IH]; simpl.
  - apply post_ret, _.
  - apply post_bind; [apply _ | apply serve_call_no_removal | by intros _].
Qed.

Lemma close_listener_no_removal lis :
  path_network lis.1 = false → post (close_listener lis) no_removal.
Proof.
  intros Hnet w. unfold close_listener; simpl. rewrite Hnet.
  split; [done|]. eexists [_]. split; [done|].
  intros path H%list_elem_of_singleton. discriminate H.
Qed.

Lemma serve_on_no_removal impl e network address lis :
  path_network lis.1 = false →
  post (serve_on impl e network address lis) no_removal.
Proof.
  intros Hnet. unfold serve_on, grpc_Serve.
  apply post_bind; [apply _ | by apply emit_no_removal | intros _].
  apply post_bind; [apply _ | by apply emit_no_removal | intros _].
  apply post_bind; [apply _ | | intros [msg|]; apply post_ret, _].
  apply post_bind; [apply _ | apply serve_calls_no_removal | intros _].
  destruct (ending e).
  - apply post_bind; [apply _ | by apply emit_no_removal | intros _].
    apply post_bind; [apply _ | by apply emit_no_removal | intros _].
    apply post_bind; [apply _ | by apply close_listener_no_removal | intros _].
    apply post_ret, _.
  - apply post_bind; [apply _ | by apply close_listener_no_removal | intros _].
    apply post_ret, _.
  - intros w. simpl. reflexivity.
Qed.

Lemma net_Listen_bound e network address w lis w1 :
  net_Listen e network address w = (Returned (inl lis), w1) →
  lis = (network, address)
  ∧ trace w1 = trace w ++ [EvListen network address]
  ∧ files w1 = (if path_network network then files w ∪ {[address]} else files w).
Proof.
  unfold net_Listen. intros H.
  destruct (negb (known_network network)); [discriminate|].
  destruct (listen_failure e); [discriminate|].
  destruct (path_network network && bool_decide (address ∈ files w));
    [discriminate|].
  by injection H as <- <-.
Qed.

End effects.

(** ** Missing address *)

Lemma Serve_empty_address (impl : PluginServer) (e : server.env)
    (w w0 : server.world) (network : string) :
  server.parsed_flags e w = (Returned ("", network), w0) →
  server.Serve impl e w = (Returned (Some "--address flag is required"), w0).
Proof.
  intros Hflags. unfold server.Serve, mbind, M_bind. by rewrite Hflags.
Qed.

(** C6. When the address read from the parsed flags is empty, [Serve]
    returns the error "--address flag is required"; no listener has been
    created, no call handled: bound endpoints, file system, heap and trace
    are those [Serve] was started with. *)
Theorem Serve_requires_address (impl : PluginServer) (e : server.env)
    (w w0 : server.world) (network : string) :
  server.parsed_flags e w = (Returned ("", network), w0) →
  server.Serve impl e w = (Returned (Some "--address flag is required"), w0)
  ∧ server.listeners w0 = server.listeners w
  ∧ server.trace w0 = server.trace w
  ∧ server.files w0 = server.files w
  ∧ server.mem w0 = server.mem w.
Proof.
  intros Hflags. split.
  - by apply Serve_empty_address with network.
  - pose proof (parsed_flags_only_flags e w) as H.
    rewrite Hflags in H. simpl in H. by destruct H as (?&?&?&?).
Qed.

Lemma Serve_requires_address_witness :
  server.Serve (BasePlugin_server None) sample.no_address sample.start
  = (Returned (Some "--address flag is required"),
     (server.parsed_flags sample.no_address sample.start).2)
  ∧ server.listeners (server.parsed_flags sample.no_address sample.start).2 = []
  ∧ server.trace (server.parsed_flags sample.no_address sample.start).2 = []
  ∧ server.files (server.parsed_flags sample.no_address sample.start).2 = ∅
  ∧ server.mem (server.parsed_flags sample.no_address sample.start).2 = ∅.
Proof.
  apply (Serve_requires_address (BasePlugin_server None) sample.no_address
           sample.start _ "tcp").
  vm_compute. reflexivity.
Defined.

(** ** Socket path clean-up *)

(** C7. [Serve] has parsed a non-empty address and bound its listener, and
    it returns.  In unix mode the path at the address is then absent from
    the file system, the removal being the last thing done; in tcp mode
    [Serve] has removed nothing: the file system is as it was and no
    removal is among the events [Serve] added. *)
Theorem Serve_socket_cleanup (impl : PluginServer) (e : server.env)
    (w w0 w1 w' : server.world) (address network : string)
    (lis : string * string) (err : error) :
  server.parsed_flags e w = (Returned (address, network), w0) →
  address ≠ "" →
  server.net_Listen e network address w0 = (Returned (inl lis), w1) →
  server.Serve impl e w = (Returned err, w') →
  (network = "unix" →
     (address ∉ server.files w')
     ∧ last (server.trace w') = Some (server.EvRemove address))
  ∧ (network = "tcp" →
       server.files w' = server.files w
       ∧ (∃ t, server.trace w' = server.trace w ++ t
               ∧ (∀ path, server.EvRemove path ∉ t))).
Proof.
  intros Hflags Haddr Hlisten Hserve.
  unfold server.Serve, mbind at 1, M_bind at 1 in Hserve.
  rewrite Hflags in Hserve.
  destruct (decide (address = "")) as [|_]; [done|].
  unfold mbind, M_bind in Hserve. rewrite Hlisten in Hserve.
  unfold server.defer in Hserve.
  pose proof (parsed_flags_only_flags e w) as Hpf.
  rewrite Hflags in Hpf. destruct Hpf as (Hf0 & _ & _ & Ht0).
  destruct (net_Listen_bound _ _ _ _ _ _ Hlisten) as (-> & Ht1 & Hf1).
  split; intros ->.
  - destruct (decide ("unix" = "unix")) as [_|]; [|done].
    destruct (server.serve_on impl e "unix" address ("unix", address) w1)
      as [[a| | | |] w2]; try discriminate Hserve.
    injection Hserve as _ <-. simpl. split.
    + intros [_ Hn]%elem_of_difference. apply Hn. by apply elem_of_singleton.
    + by rewrite last_snoc.
  - destruct (decide ("tcp" = "unix")) as [|_]; [done|].
    pose proof (serve_on_no_removal impl e "tcp" address ("tcp", address)
                  eq_refl w1) as Hbody.
    destruct (server.serve_on impl e "tcp" address ("tcp", address) w1)
      as [[a| | | |] w2]; try discriminate Hserve.
    injection Hserve as _ <-. simpl in *.
    destruct Hbody as (Hf2 & t & Ht2 & Hno). split.
    + rewrite Hf2, Hf1. simpl. exact Hf0.
    + exists (server.EvListen "tcp" address :: t). split.
      * rewrite Ht2, Ht1, Ht0. by rewrite <- app_assoc.
      * intros path [H|H]%elem_of_cons; [discriminate H | by eapply Hno].
Qed.

(** The sample plugin process on a socket path: after the signal [Serve]
    returns nil and the path is gone. *)
Lemma Serve_socket_cleanup_witness :
  let w' := (server.Serve (BasePlugin_server None) sample.unix_socket
               sample.start).2 in
  ("unix" = "unix" →
     ("/tmp/plugin.sock" ∉ server.files w')
     ∧ last (server.trace w') = Some (server.EvRemove "/tmp/plugin.sock"))
  ∧ ("unix" = "tcp" →
       server.files w' = server.files sample.start
       ∧ (∃ t, server.trace w' = server.trace sample.start ++ t
               ∧ (∀ path, server.EvRemove path ∉ t))).
Proof.
  intros w'.
  apply (Serve_socket_cleanup (BasePlugin_server None) sample.unix_socket
           sample.start
           (server.parsed_flags sample.unix_socket sample.start).2
           (server.net_Listen sample.unix_socket "unix" "/tmp/plugin.sock"
              (server.parsed_flags sample.unix_socket sample.start).2).2
           w' "/tmp/plugin.sock" "unix" ("unix", "/tmp/plugin.sock") None).
  - vm_compute. reflexivity.
  - discriminate.
  - vm_compute. reflexivity.
  - vm_compute. reflexivity.
Defined.

(** Parsing a command line that sets at most the network leaves the
    address at its default. *)
Lemma flag_Parse_network_only (args : list (string * string))
    (w : server.world) :
  Forall (λ a, a.1 = "network") args →
  server.flagset w !! "address" = Some "" →
  is_Some (server.flagset w !! "network") →
  ∃ w', server.flag_Parse args w = (Returned (), w')
        ∧ server.flagset w' !! "address" = Some ""
        ∧ is_Some (server.flagset w' !! "network").
Proof.
  revert w. induction args as [|[name value] rest IH];
    intros w Hall Haddr Hnet; simpl.
  - by exists w.
  - apply Forall_cons in Hall as [Hname Hall]. simpl in Hname. subst name.
    destruct Hnet as [v Hv]. rewrite Hv.
    apply IH; simpl; [done | by rewrite lookup_insert_ne |].
    rewrite lookup_insert_eq. by eexists.
Qed.

(** A process started without [--address] reads an empty address and
    [Serve] returns the startup error with nothing bound and nothing
    done. *)
Lemma Serve_without_address_flag (impl : PluginServer) (e : server.env)
    (fs : gset string) (h : heap) :
  Forall (λ a, a.1 = "network") (server.cmdline e) →
  ∃ w0, server.Serve impl e (server.fresh_process fs h)
        = (Returned (Some "--address flag is required"), w0)
        ∧ server.listeners w0 = []
        ∧ server.trace w0 = [].
Proof.
  intros Hall.
  set (w2 := {| server.flagset := <["network" := "unix"]> (<["address" := ""]> ∅);
                server.files := fs; server.listeners := [];
                server.mem := h; server.trace := [] |}).
  destruct (flag_Parse_network_only (server.cmdline e) w2 Hall)
    as (w3 & Hparse & Haddr & [n Hn]); [done | by eexists |].
  assert (Hflags : server.parsed_flags e (server.fresh_process fs h)
                   = (Returned ("", n), w3)).
  { unfold server.parsed_flags, mbind, M_bind, server.flag_StringVar. simpl.
    rewrite lookup_empty. simpl.
    rewrite lookup_insert_ne, lookup_empty by done. simpl.
    fold w2. rewrite Hparse. unfold server.flag_value.
    by rewrite Haddr, Hn. }
  exists w3. rewrite (Serve_empty_address impl e _ _ _ Hflags).
  pose proof (parsed_flags_only_flags e (server.fresh_process fs h)) as H.
  rewrite Hflags in H. simpl in H. destruct H as (_ & Hl & _ & Ht).
  by rewrite Hl, Ht.
Qed.

(** A run in tcp mode: the listener is bound, two calls are served, the
    signal stops the server, and nothing is removed. *)
Example Serve_tcp_run :
  let r := server.Serve (BasePlugin_server None) sample.tcp_endpoint
             sample.start in
  r.1 = Returned nil_error
  ∧ head (server.trace r.2) = Some (server.EvListen "tcp" "127.0.0.1:9000")
  ∧ last (server.trace r.2) = Some (server.EvClose "tcp" "127.0.0.1:9000")
  ∧ server.listeners r.2 = [].
Proof. vm_compute. repeat split; reflexivity. Qed.

(** * Properties of the mediation pipeline *)

Section short_circuit.

Import pipeline.

(** A request phase whose events hold a verdict with continue = false
    ended with that verdict, and holds no other event than verdicts. *)
Lemma request_phase_short_circuit (ps : list plugin) (w : HTTPRequest.t)
    (v : HTTPResponse.t) :
  RequestVerdict v ∈ (request_phase ps w).2 →
  HTTPResponse.Continue v = false →
  (request_phase ps w).1 = ShortCircuit v.
Proof.
  revert w. induction ps as [|p ps IH]; intros w Hin Hstop; simpl in *.
  - inversion Hin.
  - destruct (handle_request p w) as [v'|]; simpl in *; [|inversion Hin].
    destruct (HTTPResponse.Continue v') eqn:Hc.
    + specialize (IH {| HTTPRequest.Headers := HTTPResponse.Headers v';
                        HTTPRequest.Body := HTTPResponse.Body v' |}).
      destruct (request_phase ps _) as [r t]; simpl in *.
      apply elem_of_cons in Hin as [Heq|Hin]; [|by apply IH].
      injection Heq as ->. congruence.
    + simpl in Hin. apply list_elem_of_singleton in Hin.
      by injection Hin as ->.
Qed.

Lemma request_phase_events (ps : list plugin) (w r : HTTPRequest.t) :
  UpstreamCall r ∉ (request_phase ps w).2.
Proof.
  revert w. induction ps as [|p ps IH]; intros w Hin; simpl in *.
  - inversion Hin.
  - destruct (handle_request p w) as [v'|]; simpl in *; [|inversion Hin].
    destruct (HTTPResponse.Continue v').
    + specialize (IH {| HTTPRequest.Headers := HTTPResponse.Headers v';
                        HTTPRequest.Body := HTTPResponse.Body v' |}).
      destruct (request_phase ps _) as [x t]; simpl in *.
      apply elem_of_cons in Hin as [Heq|Hin]; [discriminate Heq | done].
    + apply list_elem_of_singleton in Hin. discriminate Hin.
Qed.

Lemma response_phase_events (ps : list plugin) (w v : HTTPResponse.t) :
  RequestVerdict v ∉ (response_phase ps w).2.
Proof.
  revert w. induction ps as [|p ps IH]; intros w Hin; simpl in *.
  - inversion Hin.
  - destruct (handle_response p w) as [v'|]; simpl in *; [|inversion Hin].
    destruct (HTTPResponse.Continue v').
    + specialize (IH v').
      destruct (response_phase ps _) as [x t]; simpl in *.
      apply elem_of_cons in Hin as [Heq|Hin]; [discriminate Heq | done].
    + apply list_elem_of_singleton in Hin. discriminate Hin.
Qed.

End short_circuit.

(** C2. In every transaction in which a request-phase plugin returned a
    verdict with continue = false, no upstream call was made, and the
    final response is the status code, headers and body of that verdict. *)
Theorem short_circuit_skips_upstream (ps : list pipeline.plugin)
    (upstream : HTTPRequest.t → pipeline.response) (r : HTTPRequest.t)
    (v : HTTPResponse.t) :
  pipeline.RequestVerdict v ∈ (pipeline.transaction ps upstream r).2 →
  HTTPResponse.Continue v = false →
  (∀ w, pipeline.UpstreamCall w ∉ (pipeline.transaction ps upstream r).2)
  ∧ (pipeline.transaction ps upstream r).1
    = pipeline.Final {| pipeline.status := HTTPResponse.StatusCode v;
                        pipeline.headers := HTTPResponse.Headers v;
                        pipeline.body := HTTPResponse.Body v |}.
Proof.
  intros Hin Hstop. unfold pipeline.transaction in *.
  set (reqs := filter _ ps) in *.
  pose proof (request_phase_short_circuit reqs r v) as Hsc.
  pose proof (request_phase_events reqs r) as Hno.
  destruct (pipeline.request_phase reqs r) as [[w'|v'|] t]; simpl in *.
  - exfalso.
    assert (Hreq : pipeline.RequestVerdict v ∈ t).
    { pose proof (response_phase_events
        (filter (λ p, pipeline.declares FlowResponse p = true) ps)
        {| HTTPResponse.Continue := true;
           HTTPResponse.StatusCode := pipeline.status (upstream w');
           HTTPResponse.Headers := pipeline.headers (upstream w');
           HTTPResponse.Body := pipeline.body (upstream w') |} v) as Hresp.
      revert Hin Hresp.
      destruct (pipeline.response_phase _ _) as [[?|?|] t']; simpl;
        intros Hin Hresp;
        apply elem_of_app in Hin as [Hin|Hin]; try done;
        apply elem_of_cons in Hin as [Heq|Hin]; try done; discriminate Heq. }
    specialize (Hsc Hreq Hstop). discriminate Hsc.
  - specialize (Hsc Hin Hstop). injection Hsc as ->.
    split; [intros w; apply Hno | reflexivity].
  - specialize (Hsc Hin Hstop). discriminate Hsc.
Qed.

(** The third sample plugin refuses the request: the transaction ends with
    its 403 and the upstream is never called. *)
Lemma short_circuit_skips_upstream_witness :
  (∀ w, pipeline.UpstreamCall w
        ∉ (pipeline.transaction sample.plugins sample.upstream sample.request).2)
  ∧ (pipeline.transaction sample.plugins sample.upstream sample.request).1
    = pipeline.Final {| pipeline.status := 403;
                        pipeline.headers := [("x", "1")];
                        pipeline.body := [Byte.x6e; Byte.x6f] |}.
Proof.
  apply (short_circuit_skips_upstream sample.plugins sample.upstream
           sample.request sample.reply).
  - vm_compute. apply list_elem_of_further, list_elem_of_here.
  - reflexivity.
Defined.

(** A default plugin declares no flow, so the host leaves it out of both
    phases: alone in the pipeline, it lets the request reach the upstream
    as it came and the upstream response come back as it is. *)
Lemma default_plugin_inert (b : ptr)
    (upstream : HTTPRequest.t → pipeline.response) (r : HTTPRequest.t) :
  pipeline.transaction [pipeline.plugin_of (BasePlugin_server b)] upstream r
  = (pipeline.Final (upstream r), [pipeline.UpstreamCall r]).
Proof.
  assert (Hno : ∀ f, pipeline.declares f
                       (pipeline.plugin_of (BasePlugin_server b)) = false).
  { intros f. apply bool_decide_eq_false. by (vm_compute; apply not_elem_of_nil). }
  unfold pipeline.transaction.
  rewrite !filter_cons, !Hno, filter_nil.
  repeat case_decide; try done. simpl.
  by destruct (upstream r).
Qed.

(** * Further properties of [Serve] *)

(** ** Flags *)

(** Parsing flags that are all defined sets each to its last value. *)
Lemma flag_Parse_settings (args : list (string * string)) (w : server.world)
    (a n : string) :
  Forall (λ x, x.1 = "address" ∨ x.1 = "network") args →
  server.flagset w !! "address" = Some a →
  server.flagset w !! "network" = Some n →
  ∃ w', server.flag_Parse args w = (Returned (), w')
        ∧ server.flagset w' !! "address" = Some (flag_setting "address" a args)
        ∧ server.flagset w' !! "network" = Some (flag_setting "network" n args).
Proof.
  revert w a n. induction args as [|[name value] rest IH];
    intros w a n Hall Ha Hn; simpl.
  - by exists w.
  - apply Forall_cons in Hall as [[Hname|Hname] Hall]; simpl in Hname;
      subst name.
    + rewrite Ha. rewrite (decide_True (P := "address" = "address")) by done.
      rewrite (decide_False (P := "address" = "network")) by done.
      apply IH; simpl; [done | by rewrite lookup_insert_eq |].
      by rewrite lookup_insert_ne.
    + rewrite Hn. rewrite (decide_True (P := "network" = "network")) by done.
      rewrite (decide_False (P := "network" = "address")) by done.
      apply IH; simpl; [done | by rewrite lookup_insert_ne |].
      by rewrite lookup_insert_eq.
Qed.

(** X1. In a process that has not defined the two flags yet and whose
    command line names no other flag, [Serve] reads as address the last
    [--address] given, or the empty string when there is none, and as
    network the last [--network] given, or unix when there is none. *)
Theorem parsed_flags_last_wins (e : server.env) (w : server.world) :
  server.flagset w !! "address" = None →
  server.flagset w !! "network" = None →
  Forall (λ x, x.1 = "address" ∨ x.1 = "network") (server.cmdline e) →
  (server.parsed_flags e w).1
  = Returned (flag_setting "address" "" (server.cmdline e),
              flag_setting "network" "unix" (server.cmdline e)).
Proof.
  intros Ha Hn Hall.
  unfold server.parsed_flags, mbind, M_bind, server.flag_StringVar.
  rewrite Ha. simpl. rewrite lookup_insert_ne, Hn by done. simpl.
  destruct (flag_Parse_settings (server.cmdline e)
              {| server.flagset :=
                   <["network":="unix"]> (<["address":=""]> (server.flagset w));
                 server.files := server.files w;
                 server.listeners := server.listeners w;
                 server.mem := server.mem w;
                 server.trace := server.trace w |} "" "unix" Hall)
    as (w' & -> & Ha' & Hn'); simpl.
  - by rewrite lookup_insert_ne, lookup_insert_eq.
  - by rewrite lookup_insert_eq.
  - unfold server.flag_value. by rewrite Ha', Hn'.
Qed.

Lemma parsed_flags_last_wins_witness :
  (server.parsed_flags sample.repeated sample.start).1
  = Returned ("127.0.0.1:9000", "tcp").
Proof.
  apply (parsed_flags_last_wins sample.repeated sample.start).
  - reflexivity.
  - reflexivity.
  - repeat (constructor; [simpl; auto|]). constructor.
Defined.




(** ** Failing to bind *)

Lemma net_Listen_failed (e : server.env) (network address cause : string)
    (w w1 : server.world) :
  server.net_Listen e network address w = (Returned (inr cause), w1) → w1 = w.
Proof.
  unfold server.net_Listen. intros H.
  destruct (negb (server.known_network network)); [by injection H|].
  destruct (server.listen_failure e); [by injection H|].
  destruct (server.path_network network && bool_decide (address ∈ server.files w));
    [by injection H | discriminate H].
Qed.

Lemma Serve_after_flags (impl : PluginServer) (e : server.env)
    (w w0 : server.world) (address network : string) :
  server.parsed_flags e w = (Returned (address, network), w0) →
  address ≠ "" →
  server.Serve impl e w
  = match server.net_Listen e network address w0 with
    | (Returned (inl lis), w1) =>
        server.defer (if decide (network = "unix")
                      then _ ← server.os_Remove address; mret ()
                      else mret ())
          (server.serve_on impl e network address lis) w1
    | (Returned (inr cause), w1) =>
        (Returned (Some ("failed to listen on " +:+ network +:+ " " +:+ address
                         +:+ ": " +:+ cause)), w1)
    | (Panicked msg, w1) => (Panicked msg, w1)
    | (Exited code, w1) => (Exited code, w1)
    | (Blocked, w1) => (Blocked, w1)
    | (Fault, w1) => (Fault, w1)
    end.
Proof.
  intros Hflags Haddr.
  unfold server.Serve, mbind at 1, M_bind at 1. rewrite Hflags.
  destruct (decide (address = "")); [done|].
  unfold mbind, M_bind.
  by destruct (server.net_Listen e network address w0) as [[[lis|c]| | | |] w1].
Qed.

(** X3. When binding the listener fails, [Serve] returns the error
    "failed to listen on <network> <address>: <cause>" and has done
    nothing else: no server was registered, no call served and, in unix
    mode too, no path removed, the deferred removal being set up only
    once the listener exists. *)
Theorem Serve_listen_failure (impl : PluginServer) (e : server.env)
    (w w0 w1 : server.world) (address network cause : string) :
  server.parsed_flags e w = (Returned (address, network), w0) →
  address ≠ "" →
  server.net_Listen e network address w0 = (Returned (inr cause), w1) →
  server.Serve impl e w
  = (Returned (Some ("failed to listen on " +:+ network +:+ " " +:+ address
                     +:+ ": " +:+ cause)), w0)
  ∧ server.files w0 = server.files w
  ∧ server.listeners w0 = server.listeners w
  ∧ server.mem w0 = server.mem w
  ∧ server.trace w0 = server.trace w.
Proof.
  intros Hflags Haddr Hlisten.
  rewrite (Serve_after_flags impl e w w0 address network Hflags Haddr).
  rewrite Hlisten. rewrite (net_Listen_failed _ _ _ _ _ _ Hlisten).
  split; [done|].
  pose proof (parsed_flags_only_flags e w) as H.
  rewrite Hflags in H. by destruct H as (?&?&?&?).
Qed.

Lemma Serve_listen_failure_witness :
  server.Serve (BasePlugin_server None) sample.refused sample.start
  = (Returned (Some "failed to listen on tcp 127.0.0.1:80: bind: permission denied"),
     (server.parsed_flags sample.refused sample.start).2)
  ∧ server.files (server.parsed_flags sample.refused sample.start).2 = ∅
  ∧ server.listeners (server.parsed_flags sample.refused sample.start).2 = []
  ∧ server.mem (server.parsed_flags sample.refused sample.start).2 = ∅
  ∧ server.trace (server.parsed_flags sample.refused sample.start).2 = [].
Proof.
  apply (Serve_listen_failure (BasePlugin_server None) sample.refused
           sample.start _
           (server.parsed_flags sample.refused sample.start).2
           "127.0.0.1:80" "tcp" "bind: permission denied").
  - vm_compute. reflexivity.
  - discriminate.
  - vm_compute. reflexivity.
Defined.



(** ** The errors [Serve] returns *)

Lemma serve_on_returns (impl : PluginServer) (e : server.env)
    (network address : string) (lis : string * string)
    (w1 w2 : server.world) (err : error) :
  server.serve_on impl e network address lis w1 = (Returned err, w2) →
  (err = None ∧ server.ending e = server.Signalled)
  ∨ (∃ cause, server.ending e = server.AcceptFailed cause
              ∧ err = Some ("failed to serve: " +:+ cause)).
Proof.
  unfold server.serve_on, server.grpc_Serve, mbind, M_bind, server.emit.
  simpl.
  destruct (server.serve_calls impl (server.incoming e) _) as [[[]| | | |] w3];
    try discriminate.
  destruct (server.ending e) as [|cause|]; simpl; intros H;
    try discriminate H; injection H as <- _; eauto.
Qed.

Lemma defer_returns {A} (d : M server.world ()) (body : M server.world A)
    (w w' : server.world) (a : A) :
  server.defer d body w = (Returned a, w') →
  ∃ w2, body w = (Returned a, w2) ∧ w' = (d w2).2.
Proof.
  unfold server.defer.
  destruct (body w) as [[a'| | | |] w2]; intros H; try discriminate H.
  injection H as <- <-. by exists w2.
Qed.

(** X5. Whatever [Serve] returns is nil, and then serving was stopped by a
    signal, or one of three errors: the missing address, a failure to
    listen that names network, address and cause, or a failure to serve
    that names the cause given by the listener. *)
Theorem Serve_error_forms (impl : PluginServer) (e : server.env)
    (w w' : server.world) (err : error) :
  server.Serve impl e w = (Returned err, w') →
  (err = None ∧ server.ending e = server.Signalled)
  ∨ err = Some "--address flag is required"
  ∨ (∃ network address cause,
       err = Some ("failed to listen on " +:+ network +:+ " " +:+ address
                   +:+ ": " +:+ cause))
  ∨ (∃ cause, server.ending e = server.AcceptFailed cause
              ∧ err = Some ("failed to serve: " +:+ cause)).
Proof.
  intros HS.
  destruct (server.parsed_flags e w) as [[[address network]| | | |] w0] eqn:Hf;
    try (unfold server.Serve, mbind, M_bind in HS; rewrite Hf in HS;
         discriminate HS).
  destruct (decide (address = "")) as [->|Haddr].
  - rewrite (Serve_empty_address impl e w w0 network Hf) in HS.
    injection HS as <- _. by right; left.
  - rewrite (Serve_after_flags impl e w w0 address network Hf Haddr) in HS.
    destruct (server.net_Listen e network address w0)
      as [[[lis|cause]| | | |] w1]; try discriminate HS.
    + apply defer_returns in HS as (w2 & Hbody & _).
      destruct (serve_on_returns _ _ _ _ _ _ _ _ Hbody) as [H|H];
        [by left | by do 3 right].
    + injection HS as <- _. right; right; left. by eexists _, _, _.
Qed.

Lemma Serve_error_forms_witness :
  (Some "failed to serve: accept: too many open files" = None
   ∧ server.ending sample.broken = server.Signalled)
  ∨ Some "failed to serve: accept: too many open files"
    = Some "--address flag is required"
  ∨ (∃ network address cause,
       Some "failed to serve: accept: too many open files"
       = Some ("failed to listen on " +:+ network +:+ " " +:+ address
               +:+ ": " +:+ cause))
  ∨ (∃ cause, server.ending sample.broken = server.AcceptFailed cause
              ∧ Some "failed to serve: accept: too many open files"
                = Some ("failed to serve: " +:+ cause)).
Proof.
  apply (Serve_error_forms (BasePlugin_server None) sample.broken sample.start
           (server.Serve (BasePlugin_server None) sample.broken sample.start).2).
  vm_compute. reflexivity.
Defined.

(** ** One [Serve] per process *)

Section flags_kept.

Import server.

#[local] Instance flags_kept_refl : Reflexive flags_kept.
Proof. by intros w name H. Qed.

#[local] Instance flags_kept_trans : Transitive flags_kept.
Proof. intros w1 w2 w3 H1 H2 name H. by apply H2, H1. Qed.

Lemma flags_kept_same (w w' : world) :
  flagset w' = flagset w → flags_kept w w'.
Proof. intros Heq name. by rewrite Heq. Qed.

Lemma flags_kept_insert (w w' : world) (name value : string) :
  flagset w' = <[name:=value]> (flagset w) → flags_kept w w'.
Proof.
  intros Heq x Hx. rewrite Heq.
  destruct (decide (name = x)) as [->|Hne].
  - rewrite lookup_insert_eq. by eexists.
  - by rewrite lookup_insert_ne.
Qed.

Lemma post_defer {A} (R : world → world → Prop) `{!Transitive R}
    (d : M world ()) (body : M world A) :
  post d R → post body R → post (defer d body) R.
Proof.
  intros Hd Hb w. unfold defer. specialize (Hb w).
  destruct (body w) as [[a| | | |] w2]; simpl in *; try done;
    (etrans; [exact Hb | apply Hd]).
Qed.

(** What follows a step relates the world the step left to the final
    one. *)
Lemma bind_tail {A B} (R : world → world → Prop) `{!Reflexive R}
    (m : M world A) (k : A → M world B) (w : world) :
  (∀ a, post (k a) R) → R (m w).2 ((m ≫= k) w).2.
Proof.
  intros Hk. unfold mbind, M_bind.
  destruct (m w) as [[a| | | |] w1]; simpl; try reflexivity. apply Hk.
Qed.

Lemma flag_StringVar_flags_kept name value :
  post (flag_StringVar name value) flags_kept.
Proof.
  intros w. unfold flag_StringVar.
  destruct (flagset w !! name); simpl; [reflexivity|].
  by eapply flags_kept_insert.
Qed.

Lemma flag_Parse_flags_kept args : post (flag_Parse args) flags_kept.
Proof.
  induction args as [|[name value] rest IH]; intros w; simpl; [reflexivity|].
  destruct (flagset w !! name).
  - etrans; [|apply IH]. by eapply flags_kept_insert.
  - destruct (decide _); reflexivity.
Qed.

Lemma serve_calls_flags_kept impl rs : post (serve_calls impl rs) flags_kept.
Proof.
  induction rs as [|r rs IH]; simpl; [apply post_ret, _|].
  apply post_bind; [apply _ | | by intros _].
  unfold serve_call. apply post_bind; [apply _ | |].
  - intros w. by apply flags_kept_same.
  - intros p w. unfold run_handler.
    by destruct (invoke impl _ (mem w)) as [[[reply err]| | | |] h'];
      apply flags_kept_same.
Qed.

Lemma serve_on_flags_kept impl e network address lis :
  post (serve_on impl e network address lis) flags_kept.
Proof.
  assert (Hemit : ∀ ev, post (emit ev) flags_kept)
    by (intros ev w; by apply flags_kept_same).
  assert (Hclose : post (close_listener lis) flags_kept)
    by (intros w; by apply flags_kept_same).
  unfold serve_on, grpc_Serve.
  apply post_bind; [apply _ | apply Hemit | intros _].
  apply post_bind; [apply _ | apply Hemit | intros _].
  apply post_bind; [apply _ | | intros [msg|]; apply post_ret, _].
  apply post_bind; [apply _ | apply serve_calls_flags_kept | intros _].
  destruct (ending e).
  - repeat (apply post_bind; [apply _ | done | intros _]). apply post_ret, _.
  - apply post_bind; [apply _ | done | intros _]. apply post_ret, _.
  - intros w. simpl. reflexivity.
Qed.

Lemma after_flags_kept impl e address network :
  post (if decide (address = "")
        then mret (Some "--address flag is required")
        else
          r ← net_Listen e network address;
          match r with
          | inr err =>
              mret (Some ("failed to listen on " +:+ network +:+ " "
                          +:+ address +:+ ": " +:+ err))
          | inl lis =>
              defer (if decide (network = "unix")
                     then _ ← os_Remove address; mret ()
                     else mret ())
                (serve_on impl e network address lis)
          end) flags_kept.
Proof.
  destruct (decide (address = "")); [apply post_ret, _|].
  apply post_bind; [apply _ | |].
  - intros w. unfold net_Listen.
    destruct (negb (known_network network)); [reflexivity|].
    destruct (listen_failure e); [reflexivity|].
    destruct (path_network network && bool_decide (address ∈ files w));
      [reflexivity | by apply flags_kept_same].
  - intros [lis|err]; [|apply post_ret, _].
    apply post_defer; [apply _ | | apply serve_on_flags_kept].
    destruct (decide (network = "unix")); [|apply post_ret, _].
    apply post_bind; [apply _ | | intros ?; apply post_ret, _].
    intros w. by apply flags_kept_same.
Qed.

Lemma parsed_flags_defines_address e w :
  is_Some (flagset (parsed_flags e w).2 !! "address").
Proof.
  unfold parsed_flags.
  set (rest := λ _ : (), _).
  assert (Hrest : ∀ u, post (rest u) flags_kept).
  { intros u. unfold rest.
    apply post_bind; [apply _ | apply flag_StringVar_flags_kept | intros _].
    apply post_bind; [apply _ | apply flag_Parse_flags_kept | intros _].
    apply post_bind; [apply _ | by intros w'; apply flags_kept_same | intros ?].
    apply post_bind; [apply _ | by intros w'; apply flags_kept_same | intros ?].
    apply post_ret, _. }
  apply (bind_tail flags_kept (flag_StringVar "address" "") rest w Hrest).
  unfold flag_StringVar.
  destruct (flagset w !! "address") eqn:Hw; simpl; [by rewrite Hw|].
  rewrite lookup_insert_eq. by eexists.
Qed.

Lemma Serve_defines_address impl e w :
  is_Some (flagset (Serve impl e w).2 !! "address").
Proof.
  unfold Serve.
  eapply (bind_tail flags_kept (parsed_flags e)); [|apply parsed_flags_defines_address].
  intros [address network]. apply after_flags_kept.
Qed.

End flags_kept.

(** X6. [Serve] defines its flags on the flag set of the process, so it
    runs once per process: after any call of [Serve], however it ended, a
    further call panics on defining [address] again and does nothing. *)
Theorem Serve_twice_panics (impl1 impl2 : PluginServer) (e1 e2 : server.env)
    (w : server.world) :
  let w' := (server.Serve impl1 e1 w).2 in
  ∃ msg, server.Serve impl2 e2 w' = (Panicked msg, w').
Proof.
  intros w'. destruct (Serve_defines_address impl1 e1 w) as [v Hv].
  fold w' in Hv. exists ("flag redefined: " +:+ "address").
  unfold server.Serve, server.parsed_flags, mbind, M_bind,
    server.flag_StringVar.
  by rewrite Hv.
Qed.

(** * The default plugin behind [Serve] *)

Lemma serve_call_BasePlugin (b : ptr) (r : server.rpc) (w : server.world) :
  ∃ h', server.serve_call (BasePlugin_server b) r w
        = (Returned (),
           {| server.flagset := server.flagset w;
              server.files := server.files w;
              server.listeners := server.listeners w;
              server.mem := h';
              server.trace := server.trace w ++ [reply_event r] |})
        ∧ server.mem w ⊆ h'.
Proof.
  unfold server.serve_call, server.lift_mem, server.run_handler, reply_event,
    mbind, M_bind.
  destruct r; unfold invoke; simpl; unfold_method;
    rewrite ?lookup_insert_eq; simpl; rewrite ?lookup_insert_eq;
    (eexists; split; [reflexivity|]);
    (etrans; [apply new_extends | apply new_extends]).
Qed.

(** X7. A server whose implementation is an unoverridden [BasePlugin]
    answers every call that arrives: serving a sequence of calls returns,
    adds to the trace one reply per call, in order, each with a nil error
    and the default message (for a request or response, the pass-through
    verdict), and changes nothing of the file system, the listeners or
    the objects already in the heap. *)
Theorem serve_calls_BasePlugin (b : ptr) (rs : list server.rpc)
    (w : server.world) :
  ∃ w', server.serve_calls (BasePlugin_server b) rs w = (Returned (), w')
        ∧ server.trace w' = server.trace w ++ map reply_event rs
        ∧ server.files w' = server.files w
        ∧ server.listeners w' = server.listeners w
        ∧ server.mem w ⊆ server.mem w'.
Proof.
  revert w. induction rs as [|r rs IH]; intros w; simpl.
  - exists w. by rewrite app_nil_r.
  - destruct (serve_call_BasePlugin b r w) as (h' & Hcall & Hsub).
    unfold mbind, M_bind. rewrite Hcall.
    destruct (IH {| server.flagset := server.flagset w;
                    server.files := server.files w;
                    server.listeners := server.listeners w;
                    server.mem := h';
                    server.trace := server.trace w ++ [reply_event r] |})
      as (w' & -> & Ht & Hf & Hl & Hm); simpl in *.
    exists w'. repeat split; try done.
    + by rewrite Ht, <- app_assoc.
    + by etrans.
Qed.




(** * The caller's fatal path *)

(** X9. In the [main] shown with [Serve], an error of [Serve] ends the
    process with status 1 after logging it.  When the error comes after a
    unix listener was bound, the socket path is already removed: the
    removal is deferred inside [Serve], so it has run before [log.Fatal]
    ends the process, and the last two events are the removal and the
    log line. *)
Theorem main_fatal_after_cleanup (impl : PluginServer) (e : server.env)
    (w w0 w1 w' : server.world) (address msg : string)
    (lis : string * string) :
  server.parsed_flags e w = (Returned (address, "unix"), w0) →
  address ≠ "" →
  server.net_Listen e "unix" address w0 = (Returned (inl lis), w1) →
  server.Serve impl e w = (Returned (Some msg), w') →
  ∃ w'', cmd.main impl e w = (Exited 1, w'')
         ∧ (address ∉ server.files w'')
         ∧ (∃ t, server.trace w''
                 = t ++ [server.EvRemove address; server.EvLog msg]).
Proof.
  intros Hflags Haddr Hlisten HS.
  unfold cmd.main, mbind, M_bind. rewrite HS.
  eexists. split; [reflexivity|]. simpl.
  rewrite (Serve_after_flags impl e w w0 address "unix" Hflags Haddr),
    Hlisten in HS.
  apply defer_returns in HS as (w2 & _ & ->).
  destruct (decide ("unix" = "unix")) as [_|]; [|done]. simpl. split.
  - intros [_ Hn]%elem_of_difference. apply Hn. by apply elem_of_singleton.
  - exists (server.trace w2). by rewrite <- app_assoc.
Qed.

Lemma main_fatal_after_cleanup_witness :
  ∃ w'', cmd.main (BasePlugin_server None) sample.broken sample.start
         = (Exited 1, w'')
         ∧ ("/tmp/plugin.sock" ∉ server.files w'')
         ∧ (∃ t, server.trace w''
                 = t ++ [server.EvRemove "/tmp/plugin.sock";
                         server.EvLog "failed to serve: accept: too many open files"]).
Proof.
  apply (main_fatal_after_cleanup (BasePlugin_server None) sample.broken
           sample.start
           (server.parsed_flags sample.broken sample.start).2
           (server.net_Listen sample.broken "unix" "/tmp/plugin.sock"
              (server.parsed_flags sample.broken sample.start).2).2
           (server.Serve (BasePlugin_server None) sample.broken sample.start).2
           "/tmp/plugin.sock" "failed to serve: accept: too many open files"
           ("unix", "/tmp/plugin.sock")).
  - vm_compute. reflexivity.
  - discriminate.
  - vm_compute. reflexivity.
  - vm_compute. reflexivity.
Defined.

(** * Composing the pass-through methods *)



(** X11. The verdict [HandleRequest] returns for a request goes through
    [HandleResponse] unchanged: the second verdict equals the first, with
    the request's headers and body, status 0 and continue = true, and the
    request itself is still in the heap as it was. *)
Theorem passthrough_chain (b1 b2 : ptr) (ctx1 ctx2 : Context) (h : heap)
    (l : loc) (r : HTTPRequest.t) :
  h !! l = Some (ObjHTTPRequest r) →
  ∃ p1 h1 p2 h2,
    HandleRequest b1 ctx1 (Some l) h = (Returned (Some p1, nil_error), h1)
    ∧ HandleResponse b2 ctx2 (Some p1) h1 = (Returned (Some p2, nil_error), h2)
    ∧ h2 !! p2 = h2 !! p1
    ∧ h2 !! p2 = Some (ObjHTTPResponse
                         {| HTTPResponse.Continue := true;
                            HTTPResponse.StatusCode := 0;
                            HTTPResponse.Headers := HTTPRequest.Headers r;
                            HTTPResponse.Body := HTTPRequest.Body r |})
    ∧ h2 !! l = Some (ObjHTTPRequest r).
Proof.
  intros Hl. unfold_method. rewrite Hl.
  eexists _, _, _, _. split; [reflexivity|].
  rewrite lookup_insert_eq. split; [reflexivity|].
  set (v := ObjHTTPResponse _).
  set (h1 := <[next_loc h := v]> h).
  assert (Hp1 : <[next_loc h1 := v]> h1 !! next_loc h = Some v).
  { apply (lookup_weaken h1); [apply lookup_insert_eq | apply new_extends]. }
  rewrite Hp1, lookup_insert_eq. repeat split.
  apply (lookup_weaken h); [done|].
  etrans; apply new_extends.
Qed.

Lemma passthrough_chain_witness :
  ∃ p1 h1 p2 h2,
    HandleRequest None sample.ctx (Some 1%positive) sample.memory
    = (Returned (Some p1, nil_error), h1)
    ∧ HandleResponse (Some 2%positive) sample.ctx (Some p1) h1
      = (Returned (Some p2, nil_error), h2)
    ∧ h2 !! p2 = h2 !! p1
    ∧ h2 !! p2 = Some (ObjHTTPResponse
                         {| HTTPResponse.Continue := true;
                            HTTPResponse.StatusCode := 0;
                            HTTPResponse.Headers := [("a", "1")];
                            HTTPResponse.Body := [Byte.x68; Byte.x69] |})
    ∧ h2 !! 1%positive = Some (ObjHTTPRequest sample.request).
Proof.
  apply (passthrough_chain None (Some 2%positive) sample.ctx sample.ctx
           sample.memory 1%positive sample.request).
  reflexivity.
Defined.
